(** * Completion registry of the task-completion API (routes.js)

    A shallow embedding of the route handlers of [routes.js]: the two
    module-level stores ([taskCompletions], [usedTransactionHashes]), the
    helper functions, the express-validator chains and the four handlers,
    followed by the properties of the registration protocol.

    Conventions of the embedding.
    - A JS string is a [string]; the [Map] is a [gmap string completion] and
      the [Set] a [gset string].
    - The request body is [{userAddress, timestamp, tx}] with [timestamp] an
      integer-valued number ([Z]) and [tx] possibly [undefined]
      ([option string]).  The validators see a field through its string:
      for a number that is [String(v)], which is the decimal digits of [v]
      below 10^21 in absolute value and exponent notation from there on.
    - The server clock is an input of a handler: [date_now] is the value of
      [Date.now()] (milliseconds) and [date_iso] the value of
      [new Date().toISOString()].
    - [res.status(c).json(b)] is the reply [Json c b]; [res.json(b)] has
      code 200.  [console.log] is not part of the state and is left out.
    - Nothing in the [try] blocks throws on these inputs, so the [catch]
      branches (code 500) are never taken and have no counterpart here. *)

From Stdlib Require Import ZArith Lia Ascii String.
From stdpp Require Import gmap strings list fin_maps.

Local Open Scope string_scope.
Local Open Scope Z_scope.

(** ** JavaScript primitives used by the handlers *)

Module Js.

Definition code (c : ascii) : N := N_of_ascii c.

Definition between (lo hi : N) (c : ascii) : bool :=
  ((lo <=? code c) && (code c <=? hi))%N.

Definition is_upper : ascii -> bool := between 65 90.
Definition is_digit : ascii -> bool := between 48 57.

(** The character class [[a-fA-F0-9]]. *)
Definition is_hex (c : ascii) : bool :=
  between 97 102 c || between 65 70 c || is_digit c.

Definition lower_char (c : ascii) : ascii :=
  if is_upper c then ascii_of_N (code c + 32) else c.

(** [String.prototype.toLowerCase] on strings of ASCII characters, which
    is all the handlers apply it to: they call it only on a string that
    has passed the address pattern. *)
Fixpoint toLowerCase (s : string) : string :=
  match s with
  | EmptyString => EmptyString
  | String c r => String (lower_char c) (toLowerCase r)
  end.

Fixpoint all_hex (s : string) : bool :=
  match s with
  | EmptyString => true
  | String c r => is_hex c && all_hex r
  end.

(** The patterns [/^0x[a-fA-F0-9]{n}$/] (no [m] flag: [$] is the end of
    the input). *)
Definition matches_0x_hex (n : nat) (s : string) : bool :=
  match s with
  | String "0" (String "x" r) => (String.length r =? n)%nat && all_hex r
  | _ => false
  end.

(** [isInt({min})] applied to an integer-valued number [v]: the validator
    tests [String(v)] against a pattern of decimal digits, which the
    exponent notation of a number of 10^21 or more does not match, and
    then compares it with [min]. *)
Definition isInt (min v : Z) : bool :=
  (Z.abs v <? 10 ^ 21) && (min <=? v).

(** Truthiness of a value that is a string or [undefined]. *)
Definition truthy (v : option string) : bool :=
  match v with
  | Some EmptyString | None => false
  | Some _ => true
  end.

(** [v || ""] for such a value. *)
Definition or_empty (v : option string) : string :=
  match v with
  | Some s => s
  | None => ""
  end.

(** [set.has(v)] on a set of strings. *)
Definition has (set : gset string) (v : option string) : bool :=
  match v with
  | Some s => bool_decide (s ∈ set)
  | None => false
  end.

(** [set.add(v)] for a string [v]. *)
Definition add (set : gset string) (v : option string) : gset string :=
  match v with
  | Some s => {[s]} ∪ set
  | None => set
  end.

End Js.

(** ** Data *)

(** [req.body] of POST /complete-task. *)
Record request := Request {
  userAddress : string;
  timestamp : Z;
  tx : option string
}.

(** The object stored per address ([completionData]). *)
Record completion := Completion {
  c_timestamp : Z;
  c_tx : string;
  completedAt : string
}.

(** The two module-level stores. *)
Record store := Store {
  taskCompletions : gmap string completion;
  usedTransactionHashes : gset string
}.

Definition empty_store : store := Store ∅ ∅.

(** Response bodies [{status, error?, data: {timestamp, tx}}]. *)
Record payload := Payload {
  d_timestamp : Z;
  d_tx : string
}.

Record body := Body {
  status : Z;
  error : option string;
  data : payload
}.

Inductive reply :=
| Json (http : Z) (b : body)
| HealthJson (state : string) (now completions transactions : Z)
| StatsJson (totalCompletions totalTransactions now : Z).

(** The clock readings a handler makes. *)
Record clock := Clock {
  date_now : Z;
  date_iso : string
}.

(** [Math.floor(Date.now() / 1000)] *)
Definition seconds (ms : Z) : Z := ms / 1000.

(** ** Helper functions *)

Definition isValidTimestamp (ms : Z) (timestamp : Z) : bool :=
  let now := seconds ms in
  let oneYearAgo := now - (365 * 24 * 60 * 60) in
  (oneYearAgo <=? timestamp) && (timestamp <=? now + 300).

Definition createSuccessResponse (timestamp : Z) (tx : option string) : body :=
  {| status := 1;
     error := None;
     data := {| d_timestamp := timestamp; d_tx := Js.or_empty tx |} |}.

Definition createIncompleteResponse : body :=
  {| status := 0;
     error := None;
     data := {| d_timestamp := 0; d_tx := "" |} |}.

Definition createErrorResponse (message : string) : body :=
  {| status := 0;
     error := Some message;
     data := {| d_timestamp := 0; d_tx := "" |} |}.

(** ** Validation middleware

    Each chain yields the messages of its failing fields in the order of
    the chain, which is what [validationResult(req).array()] holds. *)

Definition check (ok : bool) (msg : string) : list string :=
  if ok then [] else [msg].

Definition validateTaskCompletion (req : request) : list string :=
  check (Js.matches_0x_hex 40 (userAddress req))
        "Invalid Ethereum address format"
  ++ check (Js.isInt 1 (timestamp req))
        "Timestamp must be a positive integer"
  ++ match tx req with
     | None => []
     | Some h => check (Js.matches_0x_hex 64 h)
                   "Invalid transaction hash format"
     end.

Definition validateAddressParam (userAddress : string) : list string :=
  check (Js.matches_0x_hex 40 userAddress) "Invalid Ethereum address format".

(** ** Routes *)

(** POST /complete-task *)
Definition complete_task (clk : clock) (s : store) (req : request)
  : store * reply :=
  match validateTaskCompletion req with
  | msg :: _ => (s, Json 400 (createErrorResponse msg))
  | [] =>
    let normalizedAddress := Js.toLowerCase (userAddress req) in
    if negb (isValidTimestamp (date_now clk) (timestamp req)) then
      (s, Json 400 (createErrorResponse "Invalid timestamp"))
    else if Js.truthy (tx req) && Js.has (usedTransactionHashes s) (tx req) then
      (s, Json 400 (createErrorResponse "Transaction hash already used"))
    else
      match taskCompletions s !! normalizedAddress with
      | Some existingCompletion =>
        (s, Json 200 (createSuccessResponse
                        (c_timestamp existingCompletion)
                        (Some (c_tx existingCompletion))))
      | None =>
        let completionData :=
          {| c_timestamp := timestamp req;
             c_tx := Js.or_empty (tx req);
             completedAt := date_iso clk |} in
        let completions :=
          <[normalizedAddress := completionData]> (taskCompletions s) in
        let hashes :=
          if Js.truthy (tx req)
          then Js.add (usedTransactionHashes s) (tx req)
          else usedTransactionHashes s in
        (Store completions hashes,
         Json 200 (createSuccessResponse (timestamp req) (tx req)))
      end
  end.

(** GET /task-status/:userAddress *)
Definition task_status (s : store) (userAddress : string) : reply :=
  match validateAddressParam userAddress with
  | msg :: _ => Json 400 (createErrorResponse msg)
  | [] =>
    match taskCompletions s !! Js.toLowerCase userAddress with
    | None => Json 200 createIncompleteResponse
    | Some completion =>
      Json 200 (createSuccessResponse (c_timestamp completion)
                                      (Some (c_tx completion)))
    end
  end.

(** GET /health *)
Definition health (ms : Z) (s : store) : reply :=
  HealthJson "healthy" (seconds ms)
             (Z.of_nat (size (taskCompletions s)))
             (Z.of_nat (size (usedTransactionHashes s))).

(** GET /stats *)
Definition stats (ms : Z) (s : store) : reply :=
  StatsJson (Z.of_nat (size (taskCompletions s)))
            (Z.of_nat (size (usedTransactionHashes s)))
            (seconds ms).

(** ** The registry as a state machine *)

Inductive op :=
| CompleteTask (clk : clock) (req : request)
| TaskStatus (userAddress : string)
| Health (ms : Z)
| Stats (ms : Z).

Definition step (s : store) (o : op) : store * reply :=
  match o with
  | CompleteTask clk req => complete_task clk s req
  | TaskStatus a => (s, task_status s a)
  | Health ms => (s, health ms s)
  | Stats ms => (s, stats ms s)
  end.

Fixpoint run (s : store) (ops : list op) : store :=
  match ops with
  | [] => s
  | o :: ops => run (fst (step s o)) ops
  end.

(** The five [return] statements of the POST /complete-task handler, each
    with the conditions under which control reaches it and the store and
    reply it leaves.  [complete_task_exit] below shows that the handler
    always takes one of them. *)
Inductive exit (clk : clock) (s : store) (req : request)
  : store * reply -> Prop :=
| exit_invalid msg rest :
    validateTaskCompletion req = msg :: rest ->
    exit clk s req (s, Json 400 (createErrorResponse msg))
| exit_timestamp :
    validateTaskCompletion req = [] ->
    isValidTimestamp (date_now clk) (timestamp req) = false ->
    exit clk s req (s, Json 400 (createErrorResponse "Invalid timestamp"))
| exit_duplicate :
    validateTaskCompletion req = [] ->
    isValidTimestamp (date_now clk) (timestamp req) = true ->
    Js.has (usedTransactionHashes s) (tx req) = true ->
    exit clk s req
         (s, Json 400 (createErrorResponse "Transaction hash already used"))
| exit_existing r :
    validateTaskCompletion req = [] ->
    isValidTimestamp (date_now clk) (timestamp req) = true ->
    Js.has (usedTransactionHashes s) (tx req) = false ->
    taskCompletions s !! Js.toLowerCase (userAddress req) = Some r ->
    exit clk s req
         (s, Json 200 (createSuccessResponse (c_timestamp r) (Some (c_tx r))))
| exit_stored :
    validateTaskCompletion req = [] ->
    isValidTimestamp (date_now clk) (timestamp req) = true ->
    Js.has (usedTransactionHashes s) (tx req) = false ->
    taskCompletions s !! Js.toLowerCase (userAddress req) = None ->
    exit clk s req
         (Store (<[Js.toLowerCase (userAddress req) :=
                    Completion (timestamp req) (Js.or_empty (tx req))
                               (date_iso clk)]> (taskCompletions s))
                (Js.add (usedTransactionHashes s) (tx req)),
          Json 200 (createSuccessResponse (timestamp req) (tx req))).

(** Two strings that differ at most in the case of their letters. *)
Definition same_char_up_to_case (c d : ascii) : bool :=
  Ascii.eqb c d
  || (Js.is_upper c && Ascii.eqb d (Js.lower_char c))
  || (Js.is_upper d && Ascii.eqb c (Js.lower_char d)).

Fixpoint same_up_to_case (a b : string) : bool :=
  match a, b with
  | EmptyString, EmptyString => true
  | String c a', String d b' => same_char_up_to_case c d && same_up_to_case a' b'
  | _, _ => false
  end.

(** All keys of the record map are lower-cased addresses. *)
Definition normalized_keys (s : store) : Prop :=
  forall k, is_Some (taskCompletions s !! k) -> Js.toLowerCase k = k.

(** ** Concrete requests used to exercise the handlers *)

Module Scenario.

Definition alice := "0x742d35Cc6535C9c80B5D7a8f1C8cd55c26A0f123".
Definition alice_lower := "0x742d35cc6535c9c80b5d7a8f1c8cd55c26a0f123".
Definition bob := "0x8ba1f109551bD432803012645Ac136ddd64DBA72".

Definition h1 :=
  "0x6539cac36a07f9c3d58ca0a4884c09ad05707f9d247fed3fb6853d1a86466f15".
Definition h1_upper :=
  "0x6539CAC36A07F9C3D58CA0A4884C09AD05707F9D247FED3FB6853D1A86466F15".
Definition h2 :=
  "0x1f9840a85d5af5bf1d1762f925bdaddc4201f984c02aaa39b223fe8d0a0e5c4f".

Definition h3 :=
  "0xc02aaa39b223fe8d0a0e5c4f27ead9083c756cc2a0b86991c6218b36c1d19d4a".

(** 2024-05-11T09:11:40Z and five minutes later. *)
Definition t0 := Clock 1715418700000 "2024-05-11T09:11:40.000Z".
Definition t1 := Clock 1715419000000 "2024-05-11T09:16:40.000Z".

Definition first := Request alice 1715418615 (Some h1).
Definition second := Request alice 1715418999 (Some h2).

(** The store after [first] has been handled on the empty store, and
    after a registration of [bob] with [h3] has followed. *)
Definition registered : store := fst (complete_task t0 empty_store first).
Definition bobs := Request bob 1715418650 (Some h3).
Definition both : store := fst (complete_task t0 registered bobs).

End Scenario.

(** ** Consistency of the two stores

    What the two stores hold for each other, used to state what every
    store reached from the empty ones satisfies. *)

(** The consumed hashes are the non-empty hashes of the records. *)
Definition hashes_match_records (s : store) : Prop :=
  forall h, h ∈ usedTransactionHashes s
            <-> h <> "" /\ exists k r, taskCompletions s !! k = Some r /\ c_tx r = h.

(** No two keys hold the same non-empty hash. *)
Definition hashes_unique (s : store) : Prop :=
  forall k1 k2 r1 r2,
    taskCompletions s !! k1 = Some r1 ->
    taskCompletions s !! k2 = Some r2 ->
    c_tx r1 = c_tx r2 -> c_tx r1 <> "" -> k1 = k2.

(** A key and its record as the validators and the handler let them in. *)
Definition well_formed_entry (k : string) (r : completion) : Prop :=
  Js.matches_0x_hex 40 k = true
  /\ Js.toLowerCase k = k
  /\ 1 <= c_timestamp r
  /\ (c_tx r = "" \/ Js.matches_0x_hex 64 (c_tx r) = true).

Definition consistent (s : store) : Prop :=
  hashes_match_records s
  /\ hashes_unique s
  /\ (forall k r, taskCompletions s !! k = Some r -> well_formed_entry k r)
  /\ (size (usedTransactionHashes s) <= size (taskCompletions s))%nat.

(** ** Facts about the primitives *)

Section Primitives.

Lemma lower_char_fixed c : Js.lower_char (Js.lower_char c) = Js.lower_char c.
Proof. destruct c as [[] [] [] [] [] [] [] []]; reflexivity. Qed.

Lemma toLowerCase_fixed a : Js.toLowerCase (Js.toLowerCase a) = Js.toLowerCase a.
Proof.
  induction a as [|c a IH]; simpl; [reflexivity|].
  now rewrite lower_char_fixed, IH.
Qed.

Lemma same_char_lower c d :
  same_char_up_to_case c d = true -> Js.lower_char c = Js.lower_char d.
Proof.
  unfold same_char_up_to_case.
  rewrite !orb_true_iff, !andb_true_iff, !Ascii.eqb_eq.
  intros [[->|[_ ->]]|[_ ->]]; auto using lower_char_fixed.
Qed.

Lemma same_up_to_case_lower a b :
  same_up_to_case a b = true -> Js.toLowerCase a = Js.toLowerCase b.
Proof.
  revert b; induction a as [|c a IH]; intros [|d b]; simpl; try easy.
  rewrite andb_true_iff. intros [Hc Hr].
  now rewrite (same_char_lower _ _ Hc), (IH _ Hr).
Qed.

Lemma isInt_spec v : Js.isInt 1 v = true <-> 1 <= v < 10 ^ 21.
Proof.
  unfold Js.isInt. rewrite andb_true_iff, Z.ltb_lt, Z.leb_le. lia.
Qed.

Lemma matches_truthy n h :
  Js.matches_0x_hex n h = true -> Js.truthy (Some h) = true.
Proof. destruct h; [discriminate | reflexivity]. Qed.

Lemma has_true set v : Js.has set v = true <-> exists h, v = Some h /\ h ∈ set.
Proof.
  destruct v as [h|]; simpl.
  - rewrite bool_decide_eq_true. split; [eauto | now intros (? & [= ->] & ?)].
  - split; [discriminate | now intros (? & [=] & _)].
Qed.

Lemma has_false set v :
  Js.has set v = false <-> forall h, v = Some h -> h ∉ set.
Proof.
  destruct v as [h|]; simpl.
  - rewrite bool_decide_eq_false. split; [now intros ? ? [= <-] | eauto].
  - split; [discriminate | reflexivity].
Qed.

End Primitives.

(** ** The outcomes of POST /complete-task, one lemma per exit *)

Section CompleteTask.

Variables (clk : clock) (s : store) (req : request).

Lemma validate_nil :
  validateTaskCompletion req = [] <->
  Js.matches_0x_hex 40 (userAddress req) = true
  /\ 1 <= timestamp req < 10 ^ 21
  /\ (forall h, tx req = Some h -> Js.matches_0x_hex 64 h = true).
Proof.
  unfold validateTaskCompletion, check. rewrite <- isInt_spec.
  destruct (Js.matches_0x_hex 40 (userAddress req)); simpl;
    [|split; [discriminate | now intros [? _]]].
  destruct (Js.isInt 1 (timestamp req)); simpl;
    [|split; [discriminate | now intros (_ & ? & _)]].
  destruct (tx req) as [h|]; [|intuition congruence].
  destruct (Js.matches_0x_hex 64 h) eqn:Hh; simpl.
  - intuition congruence.
  - split; [discriminate|].
    intros (_ & _ & H'). specialize (H' _ eq_refl). congruence.
Qed.

Lemma valid_tx_guard set :
  validateTaskCompletion req = [] ->
  Js.truthy (tx req) && Js.has set (tx req) = Js.has set (tx req).
Proof.
  intros (_ & _ & Hv)%validate_nil.
  destruct (tx req) as [h|]; [|reflexivity].
  now rewrite (matches_truthy 64 h (Hv _ eq_refl)).
Qed.

Lemma valid_tx_add set :
  validateTaskCompletion req = [] ->
  (if Js.truthy (tx req) then Js.add set (tx req) else set)
  = Js.add set (tx req).
Proof.
  intros (_ & _ & Hv)%validate_nil.
  destruct (tx req) as [h|]; [|reflexivity].
  now rewrite (matches_truthy 64 h (Hv _ eq_refl)).
Qed.

Lemma complete_task_invalid msg rest :
  validateTaskCompletion req = msg :: rest ->
  complete_task clk s req = (s, Json 400 (createErrorResponse msg)).
Proof. unfold complete_task. now intros ->. Qed.

Hypothesis Hvalid : validateTaskCompletion req = [].

Lemma complete_task_out_of_range :
  isValidTimestamp (date_now clk) (timestamp req) = false ->
  complete_task clk s req
  = (s, Json 400 (createErrorResponse "Invalid timestamp")).
Proof. unfold complete_task. rewrite Hvalid. now intros ->. Qed.

Hypothesis Hrange : isValidTimestamp (date_now clk) (timestamp req) = true.

Lemma complete_task_duplicate :
  Js.has (usedTransactionHashes s) (tx req) = true ->
  complete_task clk s req
  = (s, Json 400 (createErrorResponse "Transaction hash already used")).
Proof.
  intros Hhas. unfold complete_task.
  now rewrite Hvalid, Hrange, (valid_tx_guard _ Hvalid), Hhas.
Qed.

Hypothesis Hunused : Js.has (usedTransactionHashes s) (tx req) = false.

Lemma complete_task_existing r :
  taskCompletions s !! Js.toLowerCase (userAddress req) = Some r ->
  complete_task clk s req
  = (s, Json 200 (createSuccessResponse (c_timestamp r) (Some (c_tx r)))).
Proof.
  unfold complete_task.
  rewrite Hvalid, Hrange, Hunused, andb_false_r. simpl. now intros ->.
Qed.

Lemma complete_task_fresh :
  taskCompletions s !! Js.toLowerCase (userAddress req) = None ->
  complete_task clk s req
  = (Store (<[Js.toLowerCase (userAddress req) :=
               Completion (timestamp req) (Js.or_empty (tx req))
                          (date_iso clk)]> (taskCompletions s))
           (Js.add (usedTransactionHashes s) (tx req)),
     Json 200 (createSuccessResponse (timestamp req) (tx req))).
Proof.
  unfold complete_task.
  rewrite Hvalid, Hrange, Hunused, andb_false_r. simpl. intros ->.
  now rewrite (valid_tx_add _ Hvalid).
Qed.

End CompleteTask.

Lemma complete_task_exit clk s req : exit clk s req (complete_task clk s req).
Proof.
  destruct (validateTaskCompletion req) as [|msg rest] eqn:Hv.
  - destruct (isValidTimestamp (date_now clk) (timestamp req)) eqn:Ht.
    + destruct (Js.has (usedTransactionHashes s) (tx req)) eqn:Hh.
      * rewrite complete_task_duplicate by assumption. now constructor.
      * destruct (taskCompletions s !! Js.toLowerCase (userAddress req))
          as [r|] eqn:Hl.
        -- rewrite (complete_task_existing clk s req Hv Ht Hh r Hl).
           now constructor.
        -- rewrite (complete_task_fresh clk s req Hv Ht Hh Hl).
           now constructor.
    + rewrite complete_task_out_of_range by assumption. now constructor.
  - rewrite (complete_task_invalid clk s req msg rest Hv).
    now apply (exit_invalid clk s req msg rest).
Qed.

(** ** What one operation does to the two stores *)

Section Steps.

Implicit Types (s : store) (o : op) (k : string) (r : completion).

(** POST /complete-task either leaves both stores as they are or adds one
    record under a key that had none, together with the request's hash. *)
Lemma complete_task_effect clk s req :
  fst (complete_task clk s req) = s
  \/ (validateTaskCompletion req = []
      /\ taskCompletions s !! Js.toLowerCase (userAddress req) = None
      /\ fst (complete_task clk s req)
         = Store (<[Js.toLowerCase (userAddress req) :=
                     Completion (timestamp req) (Js.or_empty (tx req))
                                (date_iso clk)]> (taskCompletions s))
                 (Js.add (usedTransactionHashes s) (tx req))).
Proof.
  destruct (complete_task_exit clk s req); simpl; auto.
Qed.

Lemma step_keeps_record s o k r :
  taskCompletions s !! k = Some r ->
  taskCompletions (fst (step s o)) !! k = Some r.
Proof.
  intros Hk. destruct o as [clk req| | |]; simpl; try assumption.
  destruct (complete_task_effect clk s req) as [->|(_ & Hnone & ->)];
    [assumption|]. simpl.
  rewrite lookup_insert_ne; [assumption|]. congruence.
Qed.

Lemma add_superset (set : gset string) v h : h ∈ set -> h ∈ Js.add set v.
Proof. destruct v; simpl; set_solver. Qed.

Lemma step_keeps_hash s o h :
  h ∈ usedTransactionHashes s -> h ∈ usedTransactionHashes (fst (step s o)).
Proof.
  intros Hh. destruct o as [clk req| | |]; simpl; try assumption.
  destruct (complete_task_effect clk s req) as [->|(_ & _ & ->)];
    [assumption|]. now apply add_superset.
Qed.

Lemma step_new_record s o k r :
  taskCompletions s !! k = None ->
  taskCompletions (fst (step s o)) !! k = Some r ->
  exists clk req,
    o = CompleteTask clk req
    /\ validateTaskCompletion req = []
    /\ k = Js.toLowerCase (userAddress req)
    /\ r = Completion (timestamp req) (Js.or_empty (tx req)) (date_iso clk).
Proof.
  intros Hnone. destruct o as [clk req| | |]; simpl; try congruence.
  destruct (complete_task_effect clk s req) as [->|(Hv & _ & ->)];
    [congruence|]. simpl.
  destruct (decide (Js.toLowerCase (userAddress req) = k)) as [<-|Hne].
  - rewrite lookup_insert_eq. intros [= <-]. eauto 6.
  - rewrite lookup_insert_ne; [congruence | assumption].
Qed.

Lemma run_app s ops later : run s (ops ++ later) = run (run s ops) later.
Proof. revert s; induction ops as [|o ops IH]; intros s; simpl; auto. Qed.

Lemma run_keeps_record s ops k r :
  taskCompletions s !! k = Some r ->
  taskCompletions (run s ops) !! k = Some r.
Proof.
  revert s; induction ops as [|o ops IH]; intros s Hk; simpl;
    auto using step_keeps_record.
Qed.

Lemma run_keeps_hash s ops h :
  h ∈ usedTransactionHashes s -> h ∈ usedTransactionHashes (run s ops).
Proof.
  revert s; induction ops as [|o ops IH]; intros s Hk; simpl;
    auto using step_keeps_hash.
Qed.

(** A record found after a run was there at the start or was written by a
    POST /complete-task of the run, under the lower-cased address. *)
Lemma run_record_origin s ops k r :
  taskCompletions (run s ops) !! k = Some r ->
  taskCompletions s !! k = Some r
  \/ exists clk req,
       CompleteTask clk req ∈ ops
       /\ validateTaskCompletion req = []
       /\ k = Js.toLowerCase (userAddress req)
       /\ r = Completion (timestamp req) (Js.or_empty (tx req)) (date_iso clk).
Proof.
  revert s; induction ops as [|o ops IH]; intros s; simpl; [now left|].
  intros [Hk|(clk & req & Hin & Hrest)]%IH.
  - destruct (taskCompletions s !! k) as [r0|] eqn:Hs.
    + left. apply (step_keeps_record s o) in Hs. congruence.
    + right. destruct (step_new_record s o k r Hs Hk) as (clk & req & -> & Hrest).
      exists clk, req. split; [left | assumption].
  - right. exists clk, req. split; [now right | assumption].
Qed.

(** A 200 reply of POST /complete-task: the request passed every check,
    the reply carries the record now stored for the address, and either
    the record was there and nothing changed, or it was written from the
    request together with the request's hash. *)
Lemma complete_task_success clk s req s1 b :
  complete_task clk s req = (s1, Json 200 b) ->
  validateTaskCompletion req = []
  /\ isValidTimestamp (date_now clk) (timestamp req) = true
  /\ Js.has (usedTransactionHashes s) (tx req) = false
  /\ exists r,
       taskCompletions s1 !! Js.toLowerCase (userAddress req) = Some r
       /\ b = createSuccessResponse (c_timestamp r) (Some (c_tx r))
       /\ (is_Some (taskCompletions s !! Js.toLowerCase (userAddress req))
           -> s1 = s)
       /\ (taskCompletions s !! Js.toLowerCase (userAddress req) = None
           -> r = Completion (timestamp req) (Js.or_empty (tx req))
                             (date_iso clk)
              /\ usedTransactionHashes s1
                 = Js.add (usedTransactionHashes s) (tx req)).
Proof.
  intros Heq. destruct (complete_task_exit clk s req) as [| | |r|];
    try discriminate; injection Heq as <- <-; repeat split; trivial.
  - exists r. repeat split; trivial; congruence.
  - eexists. simpl. rewrite lookup_insert_eq. repeat split.
    intros [? ?]. congruence.
Qed.

End Steps.

(** ** Properties of the registration protocol *)

(** C6. Along every sequence of operations a record, once present under a
    key, stays there with the same timestamp, hash and recording instant:
    no operation removes or replaces it, so a key only ever goes from
    having no record to having one.  The map holds one record per key, and
    when the starting store has lower-cased keys only (the empty store at
    start-up has), so has every store reached: the one record of an address
    sits under its lower-cased form. *)
Theorem records_are_write_once (s : store) (ops later : list op)
    (k : string) (r : completion) :
  taskCompletions (run s ops) !! k = Some r ->
  taskCompletions (run s (ops ++ later)) !! k = Some r
  /\ (forall r', taskCompletions (run s (ops ++ later)) !! k = Some r' -> r' = r)
  /\ (normalized_keys s -> Js.toLowerCase k = k).
Proof.
  intros Hk. rewrite run_app.
  pose proof (run_keeps_record _ later _ _ Hk) as Hlater.
  split; [assumption|]. split; [congruence|].
  intros Hnorm.
  destruct (run_record_origin _ _ _ _ Hk) as [Hs|(clk & req & _ & _ & -> & _)].
  - apply Hnorm. eauto.
  - apply toLowerCase_fixed.
Qed.

Lemma records_are_write_once_witness :
  let k := Scenario.alice_lower in
  let r := Completion 1715418615 Scenario.h1 (date_iso Scenario.t0) in
  let ops := [CompleteTask Scenario.t0 Scenario.first] in
  let later := [CompleteTask Scenario.t1 Scenario.second; Stats 1715419000000] in
  taskCompletions (run empty_store (ops ++ later)) !! k = Some r
  /\ Js.toLowerCase k = k.
Proof.
  intros k r ops later.
  assert (Hk : taskCompletions (run empty_store ops) !! k = Some r)
    by (vm_compute; reflexivity).
  destruct (records_are_write_once empty_store ops later k r Hk) as (H1 & _ & H3).
  split; [exact H1|].
  apply H3. intros k' [r' Hr']. simpl in Hr'. rewrite lookup_empty in Hr'.
  discriminate.
Defined.

(** C7. GET /task-status for a well-formed address that has no record
    answers 200 with [{status: 0, data: {timestamp: 0, tx: ""}}] and no
    [error] field. *)
Theorem status_of_unregistered_address (s : store) (a : string) :
  validateAddressParam a = [] ->
  taskCompletions s !! Js.toLowerCase a = None ->
  task_status s a = Json 200 createIncompleteResponse
  /\ createIncompleteResponse
     = {| status := 0; error := None;
          data := {| d_timestamp := 0; d_tx := "" |} |}.
Proof.
  intros Hv Hnone. split; [|reflexivity].
  unfold task_status. now rewrite Hv, Hnone.
Qed.

Lemma status_of_unregistered_address_witness :
  task_status Scenario.registered Scenario.bob
  = Json 200 createIncompleteResponse.
Proof.
  apply (status_of_unregistered_address Scenario.registered Scenario.bob);
    vm_compute; reflexivity.
Defined.

(** In particular this is the answer after any sequence of operations on
    the empty store that holds no POST /complete-task for the address, in
    whatever letter case. *)
Lemma status_before_any_completion (ops : list op) (a : string) :
  validateAddressParam a = [] ->
  (forall clk req, CompleteTask clk req ∈ ops ->
                   Js.toLowerCase (userAddress req) <> Js.toLowerCase a) ->
  task_status (run empty_store ops) a = Json 200 createIncompleteResponse.
Proof.
  intros Hv Hops. unfold task_status. rewrite Hv.
  destruct (taskCompletions (run empty_store ops) !! Js.toLowerCase a)
    as [r|] eqn:Hr; [|reflexivity].
  apply run_record_origin in Hr as [Hr|(clk & req & Hin & _ & Hk & _)].
  - simpl in Hr. rewrite lookup_empty in Hr. discriminate.
  - now destruct (Hops clk req Hin).
Qed.

(** C5. With [now = floor(Date.now() / 1000)] read when the call is
    handled, a request that has passed validation (so its timestamp is an
    integer from 1 up to, but not including, 10^21) is answered with the
    "Invalid timestamp" error exactly when its timestamp is below
    [now - 365 days] or above [now + 5 minutes].  [now - 366 days] and
    [now + 6 minutes] fail the check, [now + 4 minutes] passes it. *)
Theorem timestamp_window (clk : clock) (s : store) (req : request) :
  validateTaskCompletion req = [] ->
  let now := date_now clk / 1000 in
  1 <= timestamp req < 10 ^ 21
  /\ (complete_task clk s req
      = (s, Json 400 (createErrorResponse "Invalid timestamp"))
      <-> timestamp req < now - 365 * 86400 \/ now + 5 * 60 < timestamp req)
  /\ (isValidTimestamp (date_now clk) (timestamp req) = false
      <-> timestamp req < now - 365 * 86400 \/ now + 5 * 60 < timestamp req)
  /\ isValidTimestamp (date_now clk) (now - 366 * 86400) = false
  /\ isValidTimestamp (date_now clk) (now + 4 * 60) = true
  /\ isValidTimestamp (date_now clk) (now + 6 * 60) = false.
Proof.
  intros Hv now.
  assert (Hwin : forall t, isValidTimestamp (date_now clk) t = false
                           <-> t < now - 365 * 86400 \/ now + 5 * 60 < t).
  { intros t. unfold isValidTimestamp, seconds. fold now.
    rewrite andb_false_iff, !Z.leb_gt. lia. }
  split; [apply validate_nil, Hv|].
  split; [|split; [apply Hwin|]].
  - rewrite <- Hwin.
    destruct (complete_task_exit clk s req);
      unfold createErrorResponse, createSuccessResponse; split; congruence.
  - repeat split.
    + apply Hwin. lia.
    + apply not_false_iff_true. rewrite Hwin. lia.
    + apply Hwin. lia.
Qed.

Lemma timestamp_window_witness :
  let req := Request Scenario.bob (1715418700 + 6 * 60) None in
  complete_task Scenario.t0 Scenario.registered req
  = (Scenario.registered, Json 400 (createErrorResponse "Invalid timestamp")).
Proof.
  intros req.
  apply (timestamp_window Scenario.t0 Scenario.registered req eq_refl).
  right. vm_compute. reflexivity.
Defined.

(** C8. Two addresses of the required shape that differ only in the case
    of their letters lower-case to the same key, so POST /complete-task and
    GET /task-status treat them alike: same reply and same resulting store,
    hence the same record, whichever spelling is used. *)
Theorem addresses_are_case_insensitive (a b : string) :
  Js.matches_0x_hex 40 a = true ->
  Js.matches_0x_hex 40 b = true ->
  same_up_to_case a b = true ->
  Js.toLowerCase a = Js.toLowerCase b
  /\ (forall s, task_status s a = task_status s b)
  /\ (forall clk s ts h,
        complete_task clk s (Request a ts h)
        = complete_task clk s (Request b ts h))
  /\ (forall clk s ts h,
        task_status (fst (complete_task clk s (Request a ts h))) b
        = task_status (fst (complete_task clk s (Request a ts h))) a).
Proof.
  intros Ha Hb Hab. apply same_up_to_case_lower in Hab.
  assert (Hstatus : forall s, task_status s a = task_status s b).
  { intros s. unfold task_status, validateAddressParam. now rewrite Ha, Hb, Hab. }
  repeat split; auto.
  intros clk s ts h. unfold complete_task, validateTaskCompletion. simpl.
  now rewrite Ha, Hb, Hab.
Qed.

Lemma addresses_are_case_insensitive_witness :
  Scenario.alice <> Scenario.alice_lower
  /\ task_status Scenario.registered Scenario.alice_lower
     = Json 200 (createSuccessResponse 1715418615 (Some Scenario.h1)).
Proof.
  split; [discriminate|].
  pose proof (addresses_are_case_insensitive
                Scenario.alice Scenario.alice_lower
                eq_refl eq_refl eq_refl) as (_ & Hstatus & _).
  rewrite <- Hstatus. vm_compute. reflexivity.
Defined.



(** C9. A call for an address that has a record, carrying a hash that is
    not in the consumed set, answers with the stored record and changes
    neither store: the hash stays unconsumed.  A later well-formed, in-range
    call of any address with that hash therefore succeeds, and registers
    the address with that hash if it had no record. *)
Theorem noop_leaves_hash_unconsumed (clk : clock) (s : store) (req : request)
    (r : completion) (h : string) :
  validateTaskCompletion req = [] ->
  isValidTimestamp (date_now clk) (timestamp req) = true ->
  taskCompletions s !! Js.toLowerCase (userAddress req) = Some r ->
  tx req = Some h ->
  h ∉ usedTransactionHashes s ->
  complete_task clk s req
  = (s, Json 200 (createSuccessResponse (c_timestamp r) (Some (c_tx r))))
  /\ forall clk' b ts,
       let s' := fst (complete_task clk s req) in
       let req' := Request b ts (Some h) in
       validateTaskCompletion req' = [] ->
       isValidTimestamp (date_now clk') ts = true ->
       (exists s'' body,
          complete_task clk' s' req' = (s'', Json 200 body) /\ status body = 1)
       /\ (taskCompletions s !! Js.toLowerCase b = None ->
           complete_task clk' s' req'
           = (Store (<[Js.toLowerCase b := Completion ts h (date_iso clk')]>
                       (taskCompletions s))
                    ({[h]} ∪ usedTransactionHashes s),
              Json 200 (createSuccessResponse ts (Some h)))).
Proof.
  intros Hv Ht Hl Htx Hfresh.
  assert (Hhas : Js.has (usedTransactionHashes s) (Some h) = false)
    by (apply has_false; now intros ? [= <-]).
  assert (Hnoop : complete_task clk s req
                  = (s, Json 200 (createSuccessResponse (c_timestamp r)
                                                        (Some (c_tx r))))).
  { apply complete_task_existing; auto. now rewrite Htx. }
  split; [exact Hnoop|].
  intros clk' b ts s' req' Hv' Ht'. subst s'. rewrite Hnoop. simpl.
  split.
  - destruct (taskCompletions s !! Js.toLowerCase b) as [r'|] eqn:Hb.
    + rewrite (complete_task_existing clk' s req' Hv' Ht' Hhas r' Hb). eauto.
    + rewrite (complete_task_fresh clk' s req' Hv' Ht' Hhas Hb). eauto.
  - intros Hb. now rewrite (complete_task_fresh clk' s req' Hv' Ht' Hhas Hb).
Qed.

Lemma noop_leaves_hash_unconsumed_witness :
  complete_task Scenario.t0 Scenario.registered Scenario.second
  = (Scenario.registered,
     Json 200 (createSuccessResponse 1715418615 (Some Scenario.h1)))
  /\ snd (complete_task Scenario.t1
            (fst (complete_task Scenario.t0 Scenario.registered Scenario.second))
            (Request Scenario.bob 1715418700 (Some Scenario.h2)))
     = Json 200 (createSuccessResponse 1715418700 (Some Scenario.h2)).
Proof.
  assert (Hnot : Scenario.h2 ∉ usedTransactionHashes Scenario.registered).
  { change (usedTransactionHashes Scenario.registered)
      with ({[Scenario.h1]} ∪ (∅ : gset string)).
    rewrite elem_of_union, elem_of_singleton, elem_of_empty.
    intros [[=]|[]]. }
  destruct (noop_leaves_hash_unconsumed
              Scenario.t0 Scenario.registered Scenario.second
              (Completion 1715418615 Scenario.h1 (date_iso Scenario.t0))
              Scenario.h2 eq_refl eq_refl eq_refl eq_refl Hnot)
    as [Hnoop Hlater].
  split; [exact Hnoop|].
  destruct (Hlater Scenario.t1 Scenario.bob 1715418700 eq_refl eq_refl)
    as [_ Hreg].
  rewrite Hreg; reflexivity.
Defined.

(** C10. The consumed-hash set is consulted with the hash exactly as sent:
    a well-formed, in-range call is refused as a duplicate exactly when its
    hash, character for character, is in the set.  So the same 64 hex
    digits written in two letter cases are two hashes: registered by two
    addresses one after the other, both calls succeed and each adds its own
    spelling to the set. *)
Theorem hash_check_is_case_sensitive :
  (forall clk s req h,
      validateTaskCompletion req = [] ->
      isValidTimestamp (date_now clk) (timestamp req) = true ->
      tx req = Some h ->
      (complete_task clk s req
       = (s, Json 400 (createErrorResponse "Transaction hash already used"))
       <-> h ∈ usedTransactionHashes s))
  /\ exists clk a b ts h h',
       Js.toLowerCase a <> Js.toLowerCase b
       /\ Js.matches_0x_hex 64 h = true
       /\ Js.matches_0x_hex 64 h' = true
       /\ h <> h'
       /\ same_up_to_case h h' = true
       /\ let s1 := fst (complete_task clk empty_store (Request a ts (Some h))) in
          let s2 := fst (complete_task clk s1 (Request b ts (Some h'))) in
          snd (complete_task clk empty_store (Request a ts (Some h)))
          = Json 200 (createSuccessResponse ts (Some h))
          /\ snd (complete_task clk s1 (Request b ts (Some h')))
             = Json 200 (createSuccessResponse ts (Some h'))
          /\ usedTransactionHashes s1 = {[h]}
          /\ usedTransactionHashes s2 = {[h; h']}.
Proof.
  split.
  - intros clk s req h Hv Ht Htx.
    assert (Hhas : Js.has (usedTransactionHashes s) (tx req)
                   = bool_decide (h ∈ usedTransactionHashes s))
      by now rewrite Htx.
    rewrite <- (bool_decide_eq_true (h ∈ usedTransactionHashes s)), <- Hhas.
    destruct (complete_task_exit clk s req);
      unfold createErrorResponse, createSuccessResponse; split; congruence.
  - exists Scenario.t0, Scenario.alice, Scenario.bob, 1715418615,
           Scenario.h1, Scenario.h1_upper.
    split; [discriminate|].
    do 2 (split; [reflexivity|]).
    split; [discriminate|].
    split; [reflexivity|].
    assert (H1 : complete_task Scenario.t0 empty_store
                   (Request Scenario.alice 1715418615 (Some Scenario.h1))
                 = (Store (<[Js.toLowerCase Scenario.alice :=
                              Completion 1715418615 Scenario.h1
                                         (date_iso Scenario.t0)]> ∅)
                          ({[Scenario.h1]} ∪ ∅),
                    Json 200 (createSuccessResponse 1715418615
                                                    (Some Scenario.h1)))).
    { apply (complete_task_fresh Scenario.t0 empty_store); reflexivity. }
    cbv zeta. rewrite H1. cbn [fst snd].
    assert (Hhas : Js.has ({[Scenario.h1]} ∪ ∅) (Some Scenario.h1_upper) = false).
    { apply has_false. intros ? [= <-].
      rewrite elem_of_union, elem_of_singleton, elem_of_empty.
      intros [[=]|[]]. }
    rewrite complete_task_fresh; [|reflexivity|reflexivity|exact Hhas|].
    + cbn [fst snd usedTransactionHashes Js.add tx timestamp].
      repeat split; set_solver.
    + cbn [taskCompletions userAddress].
      rewrite lookup_insert_ne by discriminate. apply lookup_empty.
Qed.

Lemma hash_check_is_case_sensitive_witness :
  let req := Request Scenario.bob 1715418700 (Some Scenario.h1) in
  complete_task Scenario.t1 Scenario.registered req
  = (Scenario.registered,
     Json 400 (createErrorResponse "Transaction hash already used")).
Proof.
  intros req.
  apply (proj1 hash_check_is_case_sensitive
               Scenario.t1 Scenario.registered req Scenario.h1
               eq_refl eq_refl eq_refl).
  vm_compute. reflexivity.
Defined.

(** C3, as the handler has it.  After a successful call
    [(address, ts1, tx1)], a further well-formed call for the same address
    with an in-range timestamp and a hash that is not in the consumed set
    gets the reply of the first call, whatever timestamp and hash it
    carries, and leaves both stores as they were.  When the address had no
    record before the first call, that reply is status 1 with [ts1] and
    [tx1] (the empty string if the first call had no hash), and these are
    what the record holds.  When the address had a record before the first
    call, the first call changed nothing and both replies carry that
    record's timestamp and hash. *)
Theorem second_call_returns_first_registration (clk1 clk2 : clock) (s s1 : store)
    (req1 req2 : request) (b1 : body) :
  complete_task clk1 s req1 = (s1, Json 200 b1) ->
  validateTaskCompletion req2 = [] ->
  Js.toLowerCase (userAddress req2) = Js.toLowerCase (userAddress req1) ->
  isValidTimestamp (date_now clk2) (timestamp req2) = true ->
  (forall h, tx req2 = Some h -> h ∉ usedTransactionHashes s1) ->
  complete_task clk2 s1 req2 = (s1, Json 200 b1)
  /\ (taskCompletions s !! Js.toLowerCase (userAddress req1) = None ->
      b1 = {| status := 1; error := None;
              data := {| d_timestamp := timestamp req1;
                         d_tx := match tx req1 with
                                 | Some h => h
                                 | None => ""
                                 end |} |}
      /\ taskCompletions s1 !! Js.toLowerCase (userAddress req1)
         = Some {| c_timestamp := timestamp req1;
                   c_tx := match tx req1 with
                           | Some h => h
                           | None => ""
                           end;
                   completedAt := date_iso clk1 |})
  /\ (forall r0,
        taskCompletions s !! Js.toLowerCase (userAddress req1) = Some r0 ->
        s1 = s
        /\ b1 = {| status := 1; error := None;
                   data := {| d_timestamp := c_timestamp r0;
                              d_tx := c_tx r0 |} |}).
Proof.
  intros Hfirst Hv2 Hsame Ht2 Hh2%has_false.
  pose proof (complete_task_success _ _ _ _ _ Hfirst)
    as (_ & _ & _ & r & Hr & -> & Hold & Hnew).
  split; [|split].
  - apply complete_task_existing; auto. now rewrite Hsame.
  - intros [-> _]%Hnew. split.
    + unfold createSuccessResponse. simpl. now destruct (tx req1).
    + rewrite Hr. now destruct (tx req1).
  - intros r0 Hr0. assert (s1 = s) as -> by eauto.
    split; [reflexivity|]. rewrite Hr0 in Hr. now injection Hr as ->.
Qed.

Lemma second_call_returns_first_registration_witness :
  timestamp Scenario.second <> timestamp Scenario.first
  /\ tx Scenario.second <> tx Scenario.first
  /\ complete_task Scenario.t1 Scenario.registered Scenario.second
     = (Scenario.registered,
        Json 200 {| status := 1; error := None;
                    data := {| d_timestamp := 1715418615;
                               d_tx := Scenario.h1 |} |}).
Proof.
  split; [discriminate|]. split; [discriminate|].
  assert (Hnot : forall h, tx Scenario.second = Some h ->
                           h ∉ usedTransactionHashes Scenario.registered).
  { intros h [= <-].
    change (usedTransactionHashes Scenario.registered)
      with ({[Scenario.h1]} ∪ (∅ : gset string)).
    rewrite elem_of_union, elem_of_singleton, elem_of_empty.
    intros [[=]|[]]. }
  exact (proj1 (second_call_returns_first_registration
                  Scenario.t0 Scenario.t1 empty_store Scenario.registered
                  Scenario.first Scenario.second
                  {| status := 1; error := None;
                     data := {| d_timestamp := 1715418615;
                                d_tx := Scenario.h1 |} |}
                  eq_refl eq_refl eq_refl eq_refl Hnot)).
Defined.

(** C3 as stated fails when the address is already registered: the call
    [(address, ts1, tx1)] then succeeds without writing anything, and the
    call that follows it gets the older record, not [ts1] and [tx1]. *)
Lemma second_call_after_noop_returns_older_record :
  let req1 := Request Scenario.alice 1715418650 (Some Scenario.h3) in
  let req2 := Scenario.second in
  let older := {| status := 1; error := None;
                  data := {| d_timestamp := 1715418615;
                             d_tx := Scenario.h1 |} |} in
  validateTaskCompletion req1 = []
  /\ validateTaskCompletion req2 = []
  /\ userAddress req2 = userAddress req1
  /\ timestamp req2 <> timestamp req1
  /\ tx req2 <> tx req1
  /\ complete_task Scenario.t0 Scenario.registered req1
     = (Scenario.registered, Json 200 older)
  /\ isValidTimestamp (date_now Scenario.t1) (timestamp req2) = true
  /\ (Scenario.h2 ∉ usedTransactionHashes Scenario.registered)
  /\ complete_task Scenario.t1 Scenario.registered req2
     = (Scenario.registered, Json 200 older)
  /\ data older <> {| d_timestamp := 1715418650; d_tx := Scenario.h3 |}.
Proof.
  intros req1 req2 older.
  assert (Hnot : Scenario.h2 ∉ usedTransactionHashes Scenario.registered).
  { change (usedTransactionHashes Scenario.registered)
      with ({[Scenario.h1]} ∪ (∅ : gset string)).
    rewrite elem_of_union, elem_of_singleton, elem_of_empty.
    intros [[=]|[]]. }
  do 5 (split; [reflexivity || discriminate|]).
  do 2 (split; [reflexivity|]).
  split; [exact Hnot|]. split; [reflexivity | discriminate].
Qed.

(** C1, as the handler has it.  Once a call for an address has succeeded,
    the address has a record, which that call returned.  A later
    well-formed call for the address with an in-range timestamp succeeds,
    changing nothing and returning that record, when it carries no hash or
    a hash that is not in the consumed set; when its hash is in the set it
    is refused with "Transaction hash already used".  A retry of the very
    request that registered the address is of the first kind only if the
    request carries no hash. *)
Theorem repeated_call_for_registered_address (clk1 clk2 : clock)
    (s s1 : store) (req1 req2 : request) (b1 : body) (later : list op) :
  complete_task clk1 s req1 = (s1, Json 200 b1) ->
  validateTaskCompletion req2 = [] ->
  Js.toLowerCase (userAddress req2) = Js.toLowerCase (userAddress req1) ->
  isValidTimestamp (date_now clk2) (timestamp req2) = true ->
  let s2 := run s1 later in
  exists r,
    taskCompletions s2 !! Js.toLowerCase (userAddress req1) = Some r
    /\ b1 = createSuccessResponse (c_timestamp r) (Some (c_tx r))
    /\ (Js.has (usedTransactionHashes s2) (tx req2) = false ->
        complete_task clk2 s2 req2 = (s2, Json 200 b1))
    /\ (Js.has (usedTransactionHashes s2) (tx req2) = true ->
        complete_task clk2 s2 req2
        = (s2, Json 400 (createErrorResponse "Transaction hash already used")))
    /\ (taskCompletions s !! Js.toLowerCase (userAddress req1) = None ->
        req2 = req1 ->
        Js.has (usedTransactionHashes s2) (tx req2) = false <-> tx req1 = None).
Proof.
  intros (_ & _ & _ & r & Hr & -> & _ & Hnew)%complete_task_success
         Hv2 Hsame Ht2 s2.
  exists r. split; [now apply run_keeps_record|]. split; [reflexivity|].
  split; [|split].
  - intros Hh. apply complete_task_existing; auto.
    rewrite Hsame. now apply run_keeps_record.
  - intros Hh. now apply complete_task_duplicate.
  - intros [_ Hused]%Hnew ->. destruct (tx req1) as [h|]; simpl.
    + split; [|discriminate]. rewrite bool_decide_eq_false.
      intros []. apply run_keeps_hash. rewrite Hused. simpl.
      apply elem_of_union_l, elem_of_singleton. reflexivity.
    + tauto.
Qed.

Lemma repeated_call_for_registered_address_witness :
  complete_task Scenario.t1 Scenario.both Scenario.second
  = (Scenario.both,
     Json 200 (createSuccessResponse 1715418615 (Some Scenario.h1))).
Proof.
  destruct (repeated_call_for_registered_address
              Scenario.t0 Scenario.t1 empty_store Scenario.registered
              Scenario.first Scenario.second
              (createSuccessResponse 1715418615 (Some Scenario.h1))
              [CompleteTask Scenario.t0 Scenario.bobs]
              eq_refl eq_refl eq_refl eq_refl)
    as (r & _ & _ & Hok & _).
  apply Hok. vm_compute. reflexivity.
Defined.

(** C1 as stated fails: the request that registered an address, sent again
    five minutes later, is refused because its own hash is now consumed. *)
Lemma retry_of_registering_request_refused :
  complete_task Scenario.t0 empty_store Scenario.first
  = (Scenario.registered,
     Json 200 (createSuccessResponse 1715418615 (Some Scenario.h1)))
  /\ validateTaskCompletion Scenario.first = []
  /\ isValidTimestamp (date_now Scenario.t1) (timestamp Scenario.first) = true
  /\ complete_task Scenario.t1 Scenario.registered Scenario.first
     = (Scenario.registered,
        Json 400 (createErrorResponse "Transaction hash already used"))
  /\ forall b, snd (complete_task Scenario.t1 Scenario.registered Scenario.first)
               <> Json 200 b.
Proof.
  assert (Hretry : complete_task Scenario.t1 Scenario.registered Scenario.first
                   = (Scenario.registered,
                      Json 400 (createErrorResponse
                                  "Transaction hash already used")))
    by (vm_compute; reflexivity).
  repeat split; try assumption; try (vm_compute; reflexivity).
  intros b. rewrite Hretry. discriminate.
Qed.

(** C4, as the handler has it.  Once a call has registered an address with
    hash [h], any later well-formed call of any address carrying [h] fails
    and leaves both stores as they were, so it creates no record and
    consumes nothing.  The error is "Transaction hash already used" when
    the call's timestamp is in range; an out-of-range timestamp is reported
    first, as "Invalid timestamp". *)
Theorem consumed_hash_is_refused (clk1 clk2 : clock) (s s1 : store)
    (reqA : request) (b1 : body) (h : string) (later : list op)
    (b : string) (ts : Z) :
  complete_task clk1 s reqA = (s1, Json 200 b1) ->
  taskCompletions s !! Js.toLowerCase (userAddress reqA) = None ->
  tx reqA = Some h ->
  let s2 := run s1 later in
  let reqB := Request b ts (Some h) in
  validateTaskCompletion reqB = [] ->
  fst (complete_task clk2 s2 reqB) = s2
  /\ taskCompletions (fst (complete_task clk2 s2 reqB)) !! Js.toLowerCase b
     = taskCompletions s2 !! Js.toLowerCase b
  /\ (isValidTimestamp (date_now clk2) ts = true ->
      complete_task clk2 s2 reqB
      = (s2, Json 400 (createErrorResponse "Transaction hash already used")))
  /\ (isValidTimestamp (date_now clk2) ts = false ->
      complete_task clk2 s2 reqB
      = (s2, Json 400 (createErrorResponse "Invalid timestamp"))).
Proof.
  intros (_ & _ & _ & r & _ & _ & _ & Hnew)%complete_task_success
         Hfresh Htx s2 reqB Hv.
  destruct (Hnew Hfresh) as [_ Hused].
  assert (Hin : h ∈ usedTransactionHashes s2).
  { apply run_keeps_hash. rewrite Hused, Htx. simpl.
    apply elem_of_union_l, elem_of_singleton. reflexivity. }
  assert (Hhas : Js.has (usedTransactionHashes s2) (tx reqB) = true)
    by (apply has_true; eauto).
  assert (Hst : fst (complete_task clk2 s2 reqB) = s2).
  { destruct (isValidTimestamp (date_now clk2) ts) eqn:Ht.
    - now rewrite complete_task_duplicate.
    - now rewrite complete_task_out_of_range. }
  split; [assumption|]. split; [now rewrite Hst|]. split.
  - intros Ht. now apply complete_task_duplicate.
  - intros Ht. now apply complete_task_out_of_range.
Qed.

Lemma consumed_hash_is_refused_witness :
  complete_task Scenario.t1 Scenario.registered
                (Request Scenario.bob 1715418700 (Some Scenario.h1))
  = (Scenario.registered,
     Json 400 (createErrorResponse "Transaction hash already used")).
Proof.
  destruct (consumed_hash_is_refused
              Scenario.t0 Scenario.t1 empty_store Scenario.registered
              Scenario.first
              (createSuccessResponse 1715418615 (Some Scenario.h1))
              Scenario.h1 [] Scenario.bob 1715418700
              eq_refl eq_refl eq_refl eq_refl)
    as (_ & _ & Hdup & _).
  apply Hdup. reflexivity.
Defined.

(** C4 as stated fails for a timestamp outside the window: the call of the
    second address with the consumed hash and a timestamp six minutes ahead
    of the server clock is refused for its timestamp, not as a duplicate. *)
Lemma consumed_hash_with_late_timestamp :
  complete_task Scenario.t0 empty_store Scenario.first
  = (Scenario.registered,
     Json 200 (createSuccessResponse 1715418615 (Some Scenario.h1)))
  /\ Js.toLowerCase Scenario.bob <> Js.toLowerCase Scenario.alice
  /\ validateTaskCompletion
       (Request Scenario.bob (1715418700 + 6 * 60) (Some Scenario.h1)) = []
  /\ complete_task Scenario.t0 Scenario.registered
       (Request Scenario.bob (1715418700 + 6 * 60) (Some Scenario.h1))
     = (Scenario.registered,
        Json 400 (createErrorResponse "Invalid timestamp"))
  /\ createErrorResponse "Invalid timestamp"
     <> createErrorResponse "Transaction hash already used".
Proof.
  repeat split; try discriminate; vm_compute; reflexivity.
Qed.

(** * Further properties of the handlers *)

(** ** More on the primitives *)

Section Patterns.

Lemma lower_char_hex c : Js.is_hex c = true -> Js.is_hex (Js.lower_char c) = true.
Proof. destruct c as [[] [] [] [] [] [] [] []]; simpl; trivial. Qed.

Lemma toLowerCase_length a : String.length (Js.toLowerCase a) = String.length a.
Proof. induction a as [|c a IH]; simpl; congruence. Qed.

Lemma toLowerCase_all_hex a :
  Js.all_hex a = true -> Js.all_hex (Js.toLowerCase a) = true.
Proof.
  induction a as [|c a IH]; simpl; [trivial|].
  rewrite !andb_true_iff. intros [Hc Ha]. auto using lower_char_hex.
Qed.

Lemma matches_inv n a :
  Js.matches_0x_hex n a = true ->
  exists r, a = String "0" (String "x" r)
            /\ String.length r = n /\ Js.all_hex r = true.
Proof.
  destruct a as [|c1 [|c2 r]]; try discriminate.
  - destruct c1 as [[] [] [] [] [] [] [] []]; discriminate.
  - destruct c1 as [[] [] [] [] [] [] [] []]; try discriminate.
    destruct c2 as [[] [] [] [] [] [] [] []]; try discriminate.
    simpl. rewrite andb_true_iff, Nat.eqb_eq. eauto.
Qed.

Lemma matches_toLowerCase n a :
  Js.matches_0x_hex n a = true -> Js.matches_0x_hex n (Js.toLowerCase a) = true.
Proof.
  intros (r & -> & Hlen & Hhex)%matches_inv. simpl.
  change (Js.lower_char "0") with "0"%char.
  change (Js.lower_char "x") with "x"%char.
  rewrite toLowerCase_length, Hlen, Nat.eqb_refl.
  now apply toLowerCase_all_hex.
Qed.

Lemma matches_nonempty n h : Js.matches_0x_hex n h = true -> h <> "".
Proof. now destruct h. Qed.

Lemma has_add_other set t1 t2 :
  t1 = None \/ t2 = None \/ t1 <> t2 ->
  Js.has (Js.add set t1) t2 = Js.has set t2.
Proof.
  destruct t1 as [a|], t2 as [b|]; simpl; trivial.
  intros [|[|Hne]]; try discriminate.
  apply bool_decide_ext. rewrite elem_of_union, elem_of_singleton.
  split; [intros [->|]; [congruence | assumption] | auto].
Qed.

End Patterns.

(** ** Every reached store is consistent *)

Section Consistency.

Lemma empty_store_consistent : consistent empty_store.
Proof.
  unfold consistent, hashes_match_records, hashes_unique, empty_store.
  split; [|split; [|split]]; cbn [taskCompletions usedTransactionHashes].
  - intros h. split.
    + intros Hin. now apply elem_of_empty in Hin.
    + intros (_ & k & r & Hk & _). rewrite lookup_empty in Hk. discriminate.
  - intros k1 k2 r1 r2 Hk. rewrite lookup_empty in Hk. discriminate.
  - intros k r Hk. rewrite lookup_empty in Hk. discriminate.
  - rewrite size_empty. lia.
Qed.

(** The record a passing request writes is well formed. *)
Lemma written_entry_well_formed clk req :
  validateTaskCompletion req = [] ->
  well_formed_entry (Js.toLowerCase (userAddress req))
                    (Completion (timestamp req) (Js.or_empty (tx req))
                                (date_iso clk)).
Proof.
  intros (Ha & Hts & Htx)%validate_nil. repeat split; simpl.
  - now apply matches_toLowerCase.
  - apply toLowerCase_fixed.
  - apply Hts.
  - destruct (tx req) as [h|]; simpl; auto.
Qed.

Lemma or_empty_nonempty (v : option string) :
  Js.or_empty v <> "" -> v = Some (Js.or_empty v).
Proof. destruct v; simpl; congruence. Qed.

Lemma size_add (set : gset string) (v : option string) :
  Js.has set v = false -> (size (Js.add set v) <= S (size set))%nat.
Proof.
  destruct v as [h|]; simpl; [|lia].
  rewrite bool_decide_eq_false. intros Hh.
  rewrite size_union by set_solver. rewrite size_singleton. lia.
Qed.

Lemma complete_task_consistent clk s req :
  consistent s -> consistent (fst (complete_task clk s req)).
Proof.
  intros Hs. pose proof Hs as (Hmatch & Huniq & Hwf & Hsize).
  destruct (complete_task_exit clk s req) as [| | | |Hv Ht Hh Hl];
    cbn [fst]; try exact Hs.
  assert (Hnew : forall k r,
             <[Js.toLowerCase (userAddress req) :=
                 Completion (timestamp req) (Js.or_empty (tx req))
                            (date_iso clk)]> (taskCompletions s) !! k = Some r ->
             (k = Js.toLowerCase (userAddress req)
              /\ r = Completion (timestamp req) (Js.or_empty (tx req))
                                (date_iso clk))
             \/ (k <> Js.toLowerCase (userAddress req)
                 /\ taskCompletions s !! k = Some r)).
  { intros k r. rewrite lookup_insert. case_decide; [left|right]; split;
      congruence. }
  assert (Hfresh : forall k r,
             taskCompletions s !! k = Some r -> c_tx r <> "" ->
             Some (c_tx r) <> tx req).
  { intros k r Hk Hne Heq.
    assert (Hin : c_tx r ∈ usedTransactionHashes s) by (apply Hmatch; eauto).
    rewrite <- Heq in Hh. simpl in Hh.
    now apply bool_decide_eq_false in Hh. }
  unfold consistent, hashes_match_records, hashes_unique.
  split; [|split; [|split]]; cbn [taskCompletions usedTransactionHashes].
  - intros h. split.
    + intros Hin.
      assert (Hcase : tx req = Some h \/ h ∈ usedTransactionHashes s).
      { destruct (tx req) as [h0|]; simpl in Hin; [|now right].
        apply elem_of_union in Hin as [->%elem_of_singleton|]; auto. }
      destruct Hcase as [Htx|Hold].
      * split.
        -- apply validate_nil in Hv as (_ & _ & Hv).
           eapply matches_nonempty, Hv, Htx.
        -- eexists _, _. rewrite lookup_insert_eq. split; [reflexivity|].
           simpl. now rewrite Htx.
      * apply Hmatch in Hold as (Hne & k & r & Hk & Hr). split; [assumption|].
        exists k, r. split; [|assumption].
        rewrite lookup_insert_ne; [assumption | congruence].
    + intros (Hne & k & r & [[-> ->]|[_ Hk]]%Hnew & Hr); simpl in Hr.
      * subst h. rewrite (or_empty_nonempty _ Hne). simpl.
        apply elem_of_union_l, elem_of_singleton. reflexivity.
      * apply add_superset, Hmatch. eauto.
  - intros k1 k2 r1 r2 [[-> ->]|[Hk1 Hr1]]%Hnew [[-> ->]|[Hk2 Hr2]]%Hnew;
      simpl; intros Heq Hne; trivial.
    + destruct (Hfresh k2 r2 Hr2); [congruence|].
      rewrite <- Heq. symmetry. now apply or_empty_nonempty.
    + destruct (Hfresh k1 r1 Hr1 Hne).
      rewrite Heq. symmetry. apply or_empty_nonempty. congruence.
    + eauto.
  - intros k r [[-> ->]|[_ Hk]]%Hnew; [|now apply Hwf].
    now apply written_entry_well_formed.
  - rewrite map_size_insert_None by assumption.
    pose proof (size_add _ _ Hh). lia.
Qed.

Lemma run_consistent s ops : consistent s -> consistent (run s ops).
Proof.
  revert s; induction ops as [|o ops IH]; intros s Hs; simpl; [assumption|].
  apply IH. destruct o; simpl; auto using complete_task_consistent.
Qed.

End Consistency.

(** ** What a call depends on, and what it leaves alone *)

Section Frame.

(** The reply and the effect of a call depend on the stores only through
    the record of its address and the membership of its hash. *)
Lemma complete_task_agree clk s s' req :
  taskCompletions s' !! Js.toLowerCase (userAddress req)
  = taskCompletions s !! Js.toLowerCase (userAddress req) ->
  Js.has (usedTransactionHashes s') (tx req)
  = Js.has (usedTransactionHashes s) (tx req) ->
  snd (complete_task clk s' req) = snd (complete_task clk s req)
  /\ ((fst (complete_task clk s req) = s /\ fst (complete_task clk s' req) = s')
      \/ (fst (complete_task clk s req)
          = Store (<[Js.toLowerCase (userAddress req) :=
                      Completion (timestamp req) (Js.or_empty (tx req))
                                 (date_iso clk)]> (taskCompletions s))
                  (Js.add (usedTransactionHashes s) (tx req))
          /\ fst (complete_task clk s' req)
             = Store (<[Js.toLowerCase (userAddress req) :=
                         Completion (timestamp req) (Js.or_empty (tx req))
                                    (date_iso clk)]> (taskCompletions s'))
                     (Js.add (usedTransactionHashes s') (tx req)))).
Proof.
  intros Hrec Hhas.
  destruct (complete_task_exit clk s req) as [msg rest Hv|Hv Ht|Hv Ht Hh|r Hv Ht Hh Hl|Hv Ht Hh Hl];
    rewrite <- ?Hrec, <- ?Hhas in *.
  - rewrite (complete_task_invalid clk s' req msg rest Hv). auto.
  - rewrite (complete_task_out_of_range clk s' req Hv Ht). auto.
  - rewrite (complete_task_duplicate clk s' req Hv Ht Hh). auto.
  - rewrite (complete_task_existing clk s' req Hv Ht Hh r Hl). auto.
  - rewrite (complete_task_fresh clk s' req Hv Ht Hh Hl). auto.
Qed.

(** A call leaves the record of every other key as it is, and the
    membership of every other hash. *)
Lemma complete_task_other_key clk s req k :
  k <> Js.toLowerCase (userAddress req) ->
  taskCompletions (fst (complete_task clk s req)) !! k = taskCompletions s !! k.
Proof.
  intros Hne.
  destruct (complete_task_effect clk s req) as [->|(_ & _ & ->)]; [reflexivity|].
  simpl. now rewrite lookup_insert_ne.
Qed.

Lemma complete_task_other_hash clk s req t :
  tx req = None \/ t = None \/ tx req <> t ->
  Js.has (usedTransactionHashes (fst (complete_task clk s req))) t
  = Js.has (usedTransactionHashes s) t.
Proof.
  intros Hne.
  destruct (complete_task_effect clk s req) as [->|(_ & _ & ->)]; [reflexivity|].
  simpl. now apply has_add_other.
Qed.

Lemma add_add_comm (set : gset string) t1 t2 :
  Js.add (Js.add set t1) t2 = Js.add (Js.add set t2) t1.
Proof.
  destruct t1, t2; simpl; trivial.
  apply set_eq. intros x. rewrite !elem_of_union. tauto.
Qed.

End Frame.

(** ** Validation and the shape of replies *)

Lemma validation_messages req msg rest :
  validateTaskCompletion req = msg :: rest ->
  msg = "Invalid Ethereum address format"
  \/ msg = "Timestamp must be a positive integer"
  \/ msg = "Invalid transaction hash format".
Proof.
  unfold validateTaskCompletion, check.
  destruct (Js.matches_0x_hex 40 (userAddress req)); simpl;
    [|intros [= <- _]; auto].
  destruct (Js.isInt 1 (timestamp req)); simpl; [|intros [= <- _]; auto].
  destruct (tx req) as [h|]; [|discriminate].
  destruct (Js.matches_0x_hex 64 h); [discriminate | intros [= <- _]; auto].
Qed.

(** X1. POST /complete-task reports the first malformed field in the order
    address, timestamp, hash, whatever the later fields and the stores
    hold, and changes nothing: a malformed address gives "Invalid Ethereum
    address format"; with a well-formed address a timestamp below 1, or of
    10^21 or more (which the validator sees in exponent notation), gives
    "Timestamp must be a positive integer"; with both in order a hash that
    is present and malformed (the empty string included) gives "Invalid
    transaction hash format". *)
Theorem validation_reports_first_malformed_field (clk : clock) (s : store)
    (req : request) :
  (Js.matches_0x_hex 40 (userAddress req) = false ->
   complete_task clk s req
   = (s, Json 400 (createErrorResponse "Invalid Ethereum address format")))
  /\ (Js.matches_0x_hex 40 (userAddress req) = true ->
      timestamp req < 1 \/ 10 ^ 21 <= timestamp req ->
      complete_task clk s req
      = (s, Json 400 (createErrorResponse
                        "Timestamp must be a positive integer")))
  /\ (Js.matches_0x_hex 40 (userAddress req) = true ->
      1 <= timestamp req < 10 ^ 21 ->
      forall h, tx req = Some h -> Js.matches_0x_hex 64 h = false ->
      complete_task clk s req
      = (s, Json 400 (createErrorResponse "Invalid transaction hash format"))).
Proof.
  unfold complete_task, validateTaskCompletion, check.
  split; [|split].
  - now intros ->.
  - intros -> Hts.
    assert (Hi : Js.isInt 1 (timestamp req) = false).
    { apply not_true_iff_false. rewrite isInt_spec. lia. }
    now rewrite Hi.
  - intros -> Hts%isInt_spec h -> Hh. now rewrite Hts, Hh.
Qed.

Lemma validation_reports_first_malformed_field_witness :
  complete_task Scenario.t0 Scenario.registered
                (Request "742d35Cc6535C9c80B5D7a8f1C8cd55c26A0f123" 0 (Some ""))
  = (Scenario.registered,
     Json 400 (createErrorResponse "Invalid Ethereum address format"))
  /\ complete_task Scenario.t0 Scenario.registered
                   (Request Scenario.bob (10 ^ 21) (Some ""))
     = (Scenario.registered,
        Json 400 (createErrorResponse "Timestamp must be a positive integer"))
  /\ complete_task Scenario.t0 Scenario.registered
                   (Request Scenario.bob 1715418650 (Some ""))
     = (Scenario.registered,
        Json 400 (createErrorResponse "Invalid transaction hash format")).
Proof.
  split; [|split].
  - apply (validation_reports_first_malformed_field
             Scenario.t0 Scenario.registered). reflexivity.
  - apply (validation_reports_first_malformed_field
             Scenario.t0 Scenario.registered
             (Request Scenario.bob (10 ^ 21) (Some "")));
      [reflexivity | right; simpl; lia].
  - apply (validation_reports_first_malformed_field
             Scenario.t0 Scenario.registered
             (Request Scenario.bob 1715418650 (Some "")))
      with (h := ""); [reflexivity | simpl; lia | reflexivity | reflexivity].
Defined.

(** X2. Every reply of POST /complete-task is either a 200 with status 1
    and no [error] field, or a 400 with status 0, an [error] message and
    zeroed data; in the second case neither store has changed. *)
Theorem complete_task_reply_shape (clk : clock) (s : store) (req : request) :
  exists c b,
    snd (complete_task clk s req) = Json c b
    /\ ((c = 200 /\ status b = 1 /\ error b = None)
        \/ (c = 400 /\ status b = 0 /\ is_Some (error b)
            /\ data b = Payload 0 "" /\ fst (complete_task clk s req) = s)).
Proof.
  destruct (complete_task_exit clk s req); simpl; eexists _, _;
    (split; [reflexivity|]); simpl; eauto 10.
Qed.

(** X3. GET /task-status answers 400 exactly for a malformed address, and
    answers with status 1 exactly for a well-formed address whose
    lower-cased form has a record; the data then is that record's timestamp
    and hash. *)
Theorem task_status_cases (s : store) (a : string) :
  (task_status s a
   = Json 400 (createErrorResponse "Invalid Ethereum address format")
   <-> Js.matches_0x_hex 40 a = false)
  /\ ((exists b, task_status s a = Json 200 b /\ status b = 1)
      <-> Js.matches_0x_hex 40 a = true
          /\ is_Some (taskCompletions s !! Js.toLowerCase a))
  /\ (forall r, Js.matches_0x_hex 40 a = true ->
                taskCompletions s !! Js.toLowerCase a = Some r ->
                task_status s a
                = Json 200 {| status := 1; error := None;
                              data := Payload (c_timestamp r) (c_tx r) |}).
Proof.
  unfold task_status, validateAddressParam, check.
  destruct (Js.matches_0x_hex 40 a); simpl;
    destruct (taskCompletions s !! Js.toLowerCase a) as [r|]; simpl;
    (split; [split; intros H; first [reflexivity | discriminate H] | split]).
  - split; eauto.
  - now intros ? _ [= <-].
  - split; [now intros (b & [= <-] & Hb) | now intros [_ [? ?]]].
  - discriminate.
  - split; [now intros (b & ? & _) | now intros [? _]].
  - discriminate.
  - split; [now intros (b & ? & _) | now intros [? _]].
  - discriminate.
Qed.

Lemma task_status_cases_witness :
  task_status Scenario.registered Scenario.alice_lower
  = Json 200 {| status := 1; error := None;
                data := Payload 1715418615 Scenario.h1 |}.
Proof.
  apply (proj2 (proj2 (task_status_cases Scenario.registered
                                          Scenario.alice_lower))
           (Completion 1715418615 Scenario.h1 (date_iso Scenario.t0)));
    reflexivity.
Defined.

(** ** Registration and lookup *)

(** X4. What a successful POST /complete-task replied is what GET
    /task-status replies for that address from then on, after any further
    operations and in any letter case of the address. *)
Theorem status_returns_registration (clk : clock) (s s1 : store)
    (req : request) (b : body) (later : list op) (a : string) :
  complete_task clk s req = (s1, Json 200 b) ->
  Js.matches_0x_hex 40 a = true ->
  Js.toLowerCase a = Js.toLowerCase (userAddress req) ->
  task_status (run s1 later) a = Json 200 b.
Proof.
  intros (_ & _ & _ & r & Hr & -> & _)%complete_task_success Ha Hsame.
  unfold task_status, validateAddressParam, check.
  now rewrite Ha, Hsame, (run_keeps_record s1 later _ r Hr).
Qed.

Lemma status_returns_registration_witness :
  task_status (run Scenario.registered
                   [CompleteTask Scenario.t0 Scenario.bobs;
                    CompleteTask Scenario.t1 Scenario.second])
              Scenario.alice_lower
  = Json 200 (createSuccessResponse 1715418615 (Some Scenario.h1)).
Proof.
  apply (status_returns_registration
           Scenario.t0 empty_store Scenario.registered Scenario.first);
    reflexivity.
Defined.

(** X5. Once an address has a record, no POST /complete-task for that
    address, in any letter case and whatever else it carries, changes
    either store; its reply is a 400 or the stored record. *)
Theorem registered_address_is_frozen (clk : clock) (s : store) (req : request)
    (r : completion) :
  taskCompletions s !! Js.toLowerCase (userAddress req) = Some r ->
  fst (complete_task clk s req) = s
  /\ ((exists msg,
         snd (complete_task clk s req) = Json 400 (createErrorResponse msg))
      \/ snd (complete_task clk s req)
         = Json 200 (createSuccessResponse (c_timestamp r) (Some (c_tx r)))).
Proof.
  intros Hr. destruct (complete_task_exit clk s req); simpl; eauto.
  - split; [reflexivity|]. right. congruence.
  - congruence.
Qed.

Lemma registered_address_is_frozen_witness :
  fst (complete_task Scenario.t1 Scenario.registered
         (Request Scenario.alice_lower 1715418999 None))
  = Scenario.registered.
Proof.
  apply (registered_address_is_frozen
           Scenario.t1 Scenario.registered
           (Request Scenario.alice_lower 1715418999 None)
           (Completion 1715418615 Scenario.h1 (date_iso Scenario.t0))).
  reflexivity.
Defined.

(** X6. A POST /complete-task for one address leaves the record and the
    status of every address with a different lower-cased form as they
    were. *)
Theorem other_addresses_untouched (clk : clock) (s : store) (req : request)
    (a : string) :
  Js.toLowerCase a <> Js.toLowerCase (userAddress req) ->
  taskCompletions (fst (complete_task clk s req)) !! Js.toLowerCase a
  = taskCompletions s !! Js.toLowerCase a
  /\ task_status (fst (complete_task clk s req)) a = task_status s a.
Proof.
  intros Hne.
  pose proof (complete_task_other_key clk s req _ Hne) as Hk.
  split; [assumption|]. unfold task_status. now rewrite Hk.
Qed.

Lemma other_addresses_untouched_witness :
  task_status (fst (complete_task Scenario.t0 Scenario.registered Scenario.bobs))
              Scenario.alice
  = task_status Scenario.registered Scenario.alice.
Proof.
  apply (other_addresses_untouched
           Scenario.t0 Scenario.registered Scenario.bobs Scenario.alice).
  discriminate.
Defined.

(** X7. A request without a hash is never refused as a duplicate and
    never adds to the consumed set; when it registers its address, the
    record and the reply carry the empty string as hash. *)
Theorem registration_without_hash (clk : clock) (s : store) (req : request) :
  tx req = None ->
  usedTransactionHashes (fst (complete_task clk s req))
  = usedTransactionHashes s
  /\ snd (complete_task clk s req)
     <> Json 400 (createErrorResponse "Transaction hash already used")
  /\ (validateTaskCompletion req = [] ->
      isValidTimestamp (date_now clk) (timestamp req) = true ->
      taskCompletions s !! Js.toLowerCase (userAddress req) = None ->
      complete_task clk s req
      = (Store (<[Js.toLowerCase (userAddress req) :=
                   Completion (timestamp req) "" (date_iso clk)]>
                  (taskCompletions s))
               (usedTransactionHashes s),
         Json 200 {| status := 1; error := None;
                     data := Payload (timestamp req) "" |})).
Proof.
  intros Htx. split; [|split].
  - destruct (complete_task_effect clk s req) as [->|(_ & _ & ->)];
      [reflexivity|]. now rewrite Htx.
  - destruct (complete_task_exit clk s req) as [msg rest Hv| |? ? Hh| |];
      unfold createErrorResponse, createSuccessResponse; simpl;
      try congruence.
    + intros [= ->]. now destruct (validation_messages _ _ _ Hv) as [|[|]].
    + rewrite Htx in Hh. discriminate.
  - intros Hv Ht Hl. rewrite complete_task_fresh; trivial; now rewrite Htx.
Qed.

Lemma registration_without_hash_witness :
  let req := Request Scenario.bob 1715418650 None in
  usedTransactionHashes (fst (complete_task Scenario.t0 Scenario.registered req))
  = usedTransactionHashes Scenario.registered
  /\ snd (complete_task Scenario.t0 Scenario.registered req)
     = Json 200 {| status := 1; error := None;
                   data := Payload 1715418650 "" |}.
Proof.
  intros req.
  destruct (registration_without_hash Scenario.t0 Scenario.registered req eq_refl)
    as (Hused & _ & Hreg).
  split; [exact Hused|].
  rewrite Hreg; reflexivity.
Defined.

(** ** The stores of a running server *)

(** A record found after a run from the empty stores was written by a
    POST /complete-task of the run that passed validation and the
    timestamp check. *)
Lemma run_record_source s ops k r :
  taskCompletions (run s ops) !! k = Some r ->
  taskCompletions s !! k = Some r
  \/ exists clk req,
       CompleteTask clk req ∈ ops
       /\ validateTaskCompletion req = []
       /\ isValidTimestamp (date_now clk) (timestamp req) = true
       /\ k = Js.toLowerCase (userAddress req)
       /\ r = Completion (timestamp req) (Js.or_empty (tx req)) (date_iso clk).
Proof.
  revert s; induction ops as [|o ops IH]; intros s; simpl; [now left|].
  intros [Hk|(clk & req & Hin & Hrest)]%IH.
  - destruct o as [clk req|a|ms|ms]; simpl in Hk; auto.
    destruct (complete_task_exit clk s req) as [| | | |Hv Ht Hh Hl];
      simpl in Hk; auto.
    rewrite lookup_insert in Hk. case_decide as Hkey; [|now left].
    right. exists clk, req. injection Hk as <-.
    repeat split; trivial; [left | congruence].
  - right. exists clk, req. split; [now right | assumption].
Qed.

Lemma run_size s ops :
  (size (taskCompletions (run s ops))
   <= size (taskCompletions s) + length ops)%nat.
Proof.
  revert s; induction ops as [|o ops IH]; intros s; simpl; [lia|].
  etransitivity; [apply IH|].
  destruct o as [clk req|a|ms|ms]; simpl; try lia.
  destruct (complete_task_effect clk s req) as [->|(_ & Hl & ->)]; [lia|].
  simpl. rewrite map_size_insert_None by assumption. lia.
Qed.

(** X8. In the stores reached from the empty ones, a non-empty transaction
    hash is held by at most one address. *)
Theorem transaction_hashes_are_unique (ops : list op) (k1 k2 : string)
    (r1 r2 : completion) :
  taskCompletions (run empty_store ops) !! k1 = Some r1 ->
  taskCompletions (run empty_store ops) !! k2 = Some r2 ->
  c_tx r1 = c_tx r2 ->
  c_tx r1 <> "" ->
  k1 = k2.
Proof.
  destruct (run_consistent empty_store ops empty_store_consistent)
    as (_ & Huniq & _).
  apply Huniq.
Qed.

Lemma transaction_hashes_are_unique_witness :
  taskCompletions Scenario.both !! Scenario.alice_lower
  = Some (Completion 1715418615 Scenario.h1 (date_iso Scenario.t0))
  /\ Scenario.alice_lower = Js.toLowerCase Scenario.alice.
Proof.
  split; [reflexivity|].
  apply (transaction_hashes_are_unique
           [CompleteTask Scenario.t0 Scenario.first;
            CompleteTask Scenario.t0 Scenario.bobs]
           Scenario.alice_lower (Js.toLowerCase Scenario.alice)
           (Completion 1715418615 Scenario.h1 (date_iso Scenario.t0))
           (Completion 1715418615 Scenario.h1 (date_iso Scenario.t0)));
    [reflexivity | reflexivity | reflexivity | discriminate].
Defined.

(** X9. In the stores reached from the empty ones, the consumed hashes are
    exactly the non-empty hashes of the records: a hash is consumed only
    by being recorded for an address, and every recorded hash is
    consumed. *)
Theorem consumed_hashes_are_recorded_hashes (ops : list op) (h : string) :
  h ∈ usedTransactionHashes (run empty_store ops)
  <-> h <> ""
      /\ exists k r, taskCompletions (run empty_store ops) !! k = Some r
                     /\ c_tx r = h.
Proof.
  destruct (run_consistent empty_store ops empty_store_consistent)
    as (Hmatch & _).
  apply Hmatch.
Qed.

Lemma consumed_hashes_are_recorded_hashes_witness :
  Scenario.h3 ∈ usedTransactionHashes Scenario.both.
Proof.
  apply (consumed_hashes_are_recorded_hashes
           [CompleteTask Scenario.t0 Scenario.first;
            CompleteTask Scenario.t0 Scenario.bobs]).
  split; [discriminate|].
  exists (Js.toLowerCase Scenario.bob),
         (Completion 1715418650 Scenario.h3 (date_iso Scenario.t0)).
  split; reflexivity.
Defined.

(** X10. GET /stats and GET /health report the same two counts, and after
    any operations on the empty stores the number of transactions is at
    most the number of completions, which is at most the number of
    operations handled. *)
Theorem transactions_at_most_completions (ops : list op) (ms : Z) :
  exists c t,
    stats ms (run empty_store ops) = StatsJson c t (seconds ms)
    /\ health ms (run empty_store ops) = HealthJson "healthy" (seconds ms) c t
    /\ 0 <= t <= c
    /\ c <= Z.of_nat (length ops).
Proof.
  destruct (run_consistent empty_store ops empty_store_consistent)
    as (_ & _ & _ & Hsize).
  pose proof (run_size empty_store ops) as Hops.
  unfold empty_store in Hops at 2. simpl in Hops.
  rewrite map_size_empty in Hops.
  eexists _, _. repeat split; lia.
Qed.

(** X11. In the stores reached from the empty ones, every key is a
    well-formed address in lower case, every record has a timestamp of at
    least 1 and a hash that is empty or well formed, and every record is
    what a request of the run wrote after passing validation and the
    timestamp check at its time. *)
Theorem stored_records_are_well_formed (ops : list op) (k : string)
    (r : completion) :
  taskCompletions (run empty_store ops) !! k = Some r ->
  well_formed_entry k r
  /\ exists clk req,
       CompleteTask clk req ∈ ops
       /\ validateTaskCompletion req = []
       /\ isValidTimestamp (date_now clk) (timestamp req) = true
       /\ k = Js.toLowerCase (userAddress req)
       /\ r = Completion (timestamp req) (Js.or_empty (tx req)) (date_iso clk).
Proof.
  intros Hk. split.
  - destruct (run_consistent empty_store ops empty_store_consistent)
      as (_ & _ & Hwf & _). now apply Hwf.
  - apply run_record_source in Hk as [Hk|]; [|assumption].
    simpl in Hk. rewrite lookup_empty in Hk. discriminate.
Qed.

Lemma stored_records_are_well_formed_witness :
  well_formed_entry Scenario.alice_lower
    (Completion 1715418615 Scenario.h1 (date_iso Scenario.t0)).
Proof.
  apply (stored_records_are_well_formed
           [CompleteTask Scenario.t0 Scenario.first;
            CompleteTask Scenario.t0 Scenario.bobs]).
  reflexivity.
Defined.

(** ** Independent registrations *)

(** X12. Two POST /complete-task calls for addresses with different
    lower-cased forms, whose hashes differ or of which one has no hash, do
    not interfere: handled in either order, each gets the same reply and
    the stores end up the same. *)
Theorem independent_registrations_commute (clkA clkB : clock) (s : store)
    (reqA reqB : request) :
  Js.toLowerCase (userAddress reqA) <> Js.toLowerCase (userAddress reqB) ->
  tx reqA = None \/ tx reqB = None \/ tx reqA <> tx reqB ->
  let sA := fst (complete_task clkA s reqA) in
  let sB := fst (complete_task clkB s reqB) in
  snd (complete_task clkB sA reqB) = snd (complete_task clkB s reqB)
  /\ snd (complete_task clkA sB reqA) = snd (complete_task clkA s reqA)
  /\ fst (complete_task clkB sA reqB) = fst (complete_task clkA sB reqA).
Proof.
  intros Hkey Htx sA sB.
  assert (Htx' : tx reqB = None \/ tx reqA = None \/ tx reqB <> tx reqA)
    by (destruct Htx as [|[|]]; auto).
  destruct (complete_task_agree clkB s sA reqB) as [HrB HeB].
  { apply complete_task_other_key. congruence. }
  { now apply complete_task_other_hash. }
  destruct (complete_task_agree clkA s sB reqA) as [HrA HeA].
  { now apply complete_task_other_key. }
  { now apply complete_task_other_hash. }
  split; [assumption|]. split; [assumption|].
  fold sA sB in HeA, HeB |- *.
  destruct HeB as [[HB ->]|[HB ->]], HeA as [[HA ->]|[HA ->]];
    fold sA sB in HA, HB; try congruence.
  rewrite HA, HB. simpl. f_equal.
  - apply insert_insert_ne. congruence.
  - apply add_add_comm.
Qed.

Lemma independent_registrations_commute_witness :
  fst (complete_task Scenario.t0
         (fst (complete_task Scenario.t0 empty_store Scenario.first))
         Scenario.bobs)
  = fst (complete_task Scenario.t0
           (fst (complete_task Scenario.t0 empty_store Scenario.bobs))
           Scenario.first).
Proof.
  apply (independent_registrations_commute
           Scenario.t0 Scenario.t0 empty_store Scenario.first Scenario.bobs).
  - discriminate.
  - right. right. discriminate.
Defined.

(** ** Replies, counts and the clock *)

(** X13. A 200 reply of POST /complete-task always carries the timestamp
    and hash of the record that the address has after the call, whether
    the call wrote it or found it. *)
Theorem success_reply_is_stored_record (clk : clock) (s s1 : store)
    (req : request) (b : body) :
  complete_task clk s req = (s1, Json 200 b) ->
  exists r,
    taskCompletions s1 !! Js.toLowerCase (userAddress req) = Some r
    /\ b = {| status := 1; error := None;
              data := Payload (c_timestamp r) (c_tx r) |}.
Proof.
  intros (_ & _ & _ & r & Hr & -> & _)%complete_task_success. eauto.
Qed.

Lemma success_reply_is_stored_record_witness :
  exists r,
    taskCompletions Scenario.registered !! Js.toLowerCase Scenario.alice = Some r
    /\ createSuccessResponse 1715418615 (Some Scenario.h1)
       = {| status := 1; error := None;
            data := Payload (c_timestamp r) (c_tx r) |}.
Proof.
  apply (success_reply_is_stored_record
           Scenario.t0 empty_store Scenario.registered Scenario.first).
  reflexivity.
Defined.

(** X14. A POST /complete-task that succeeds for an address without a
    record raises the number of completions by exactly one, and the number
    of consumed hashes by one if the request carries a hash and by none if
    it does not. *)
Theorem counts_after_registration (clk : clock) (s s1 : store)
    (req : request) (b : body) :
  complete_task clk s req = (s1, Json 200 b) ->
  taskCompletions s !! Js.toLowerCase (userAddress req) = None ->
  size (taskCompletions s1) = S (size (taskCompletions s))
  /\ size (usedTransactionHashes s1)
     = (size (usedTransactionHashes s)
        + match tx req with Some _ => 1 | None => 0 end)%nat.
Proof.
  intros Heq Hl.
  destruct (complete_task_exit clk s req) as [| | | |Hv Ht Hh _];
    try discriminate; [congruence|].
  injection Heq as <- _. simpl. split.
  - now apply map_size_insert_None.
  - destruct (tx req) as [h|]; simpl in *; [|lia].
    apply bool_decide_eq_false in Hh.
    rewrite size_union, size_singleton; [lia|].
    intros x ->%elem_of_singleton. exact Hh.
Qed.

Lemma counts_after_registration_witness :
  size (taskCompletions Scenario.both) = 2%nat
  /\ size (usedTransactionHashes Scenario.both) = 2%nat.
Proof.
  destruct (counts_after_registration
              Scenario.t0 Scenario.registered Scenario.both Scenario.bobs
              (createSuccessResponse 1715418650 (Some Scenario.h3))
              eq_refl eq_refl) as [Hc Ht].
  split; [rewrite Hc | rewrite Ht]; reflexivity.
Defined.

(** X15. The timestamp check moves with the server clock: a timestamp
    accepted at one time is accepted at a later time exactly as long as
    the clock, in whole seconds, is not more than 365 days past it. *)
Theorem timestamp_validity_over_time (ms ms' t : Z) :
  ms <= ms' ->
  isValidTimestamp ms t = true ->
  (isValidTimestamp ms' t = true <-> seconds ms' <= t + 365 * 86400).
Proof.
  unfold isValidTimestamp, seconds. intros Hle.
  assert (ms / 1000 <= ms' / 1000) by (apply Z.div_le_mono; lia).
  rewrite !andb_true_iff, !Z.leb_le. lia.
Qed.

Lemma timestamp_validity_over_time_witness :
  isValidTimestamp (date_now Scenario.t1) 1715418615 = true.
Proof.
  apply (timestamp_validity_over_time
           (date_now Scenario.t0) (date_now Scenario.t1) 1715418615);
    [simpl; lia | reflexivity | vm_compute; discriminate].
Defined.
